(** * cpp-ipc: the [result] status type of libimp and the argument checks of
      libpmr's [new_delete_resource].

    The development follows [include/libimp/result.h] and
    [src/libpmr/memory_resource.cpp].  Each C++ function is a Rocq function
    of the same name; overload sets become inductive types whose constructors
    are the argument lists the overloads accept. *)

From Stdlib Require Import ZArith Lia Bool List String.
Import ListNotations.
Local Open Scope Z_scope.

Set Implicit Arguments.

(** ** [libimp/error.h] *)

(** Modelled from the spec: the header [libimp/error.h], which declares
    [error_code], [error_code_t] and [error_number_limit], is not among the
    sources.  [result.h] only uses the operations listed here; they are kept
    abstract.  [error_code_t] is an unsigned integer type of
    [error_code_t_bits] bits, its values are the integers of
    [[0, 2 ^ error_code_t_bits)]. *)
Class error_h : Type := {
  (** the class [error_code] *)
  error_code : Type;
  (** width of the unsigned integer type [error_code_t] *)
  error_code_t_bits : Z;
  (** the constant [error_number_limit], of type [error_code_t] *)
  error_number_limit : Z;
  (** the converting constructor [error_code(error_code_t)] *)
  error_code_of : Z -> error_code;
  (** value initialisation [error_code{}] *)
  error_code_default : error_code;
  (** [explicit operator bool] *)
  error_code_bool : error_code -> bool;
  (** [operator==] *)
  error_code_eqb : error_code -> error_code -> bool
}.

(** Modelled from the spec: what the spec says of ErrorCode.  "A no-error
    sentinel value that is falsy; all other values are truthy";
    "equality-comparable"; "a dedicated sentinel value, distinct from no
    error, denotes uninitialized".  The no-error sentinel is [error_code{}],
    which is also the code built from the number 0. *)
Class error_contract (E : error_h) : Prop := {
  error_code_t_bits_pos : 0 < error_code_t_bits;
  error_number_limit_range : 0 <= error_number_limit < 2 ^ error_code_t_bits;
  error_number_limit_nonzero : error_number_limit <> 0;
  error_code_bool_spec :
    forall e : error_code, error_code_bool e = false <-> e = error_code_default;
  error_code_of_spec :
    forall c : Z, 0 <= c < 2 ^ error_code_t_bits ->
      (error_code_of c = error_code_default <-> c = 0);
  error_code_eqb_spec :
    forall a b : error_code, error_code_eqb a b = true <-> a = b
}.

(** [static_cast<error_code_t>(z)]: conversion of an integer value to the
    unsigned type [error_code_t] wraps modulo [2 ^ error_code_t_bits]. *)
Definition to_error_code_t `{E : error_h} (z : Z) : Z :=
  z mod 2 ^ error_code_t_bits.

(** ** Payload types *)

(** What [generic_traits<T>] asks of [T]: [T{}] (value initialisation),
    conversion from the literal [0], and [operator==] (used by the
    comparison of [std::tuple]). *)
Class payload (T : Type) : Type := {
  value_init : T;
  of_zero_literal : T;
  payload_eqb : T -> T -> bool
}.

(** An integral type [T]: signedness and width.  A value of the type is an
    integer in its range. *)
Record integral : Type := {
  is_signed : bool;
  width : Z
}.

Definition in_range (it : integral) (v : Z) : Prop :=
  if is_signed it
  then - 2 ^ (width it - 1) <= v < 2 ^ (width it - 1)
  else 0 <= v < 2 ^ width it.

#[export] Instance integral_payload : payload Z := {|
  value_init := 0;
  of_zero_literal := 0;
  payload_eqb := Z.eqb
|}.

(** A pointer value: [nullptr] or an address. *)
Inductive pointer : Type :=
| nullptr : pointer
| address : positive -> pointer.

Definition pointer_eqb (p q : pointer) : bool :=
  match p, q with
  | nullptr, nullptr => true
  | address a, address b => Pos.eqb a b
  | _, _ => false
  end.

#[export] Instance pointer_payload : payload pointer := {|
  value_init := nullptr;
  of_zero_literal := nullptr;
  payload_eqb := pointer_eqb
|}.

(** ** [namespace detail_result]: the storage policies *)

Module detail_result.

(** [template <typename T> struct generic_traits] *)
Module generic_traits.
Section GenericTraits.
Context {E : error_h} {T : Type} {P : payload T}.

(** [using storage_t = std::tuple<T, error_code>] *)
Definition storage_t : Type := (T * error_code)%type.

(** The four overloads of [init_code], by argument list. *)
Inductive args : Type :=
  | no_args : args                               (* init_code(code) *)
  | value_ec : T -> error_code -> args           (* init_code(code, value, ec) *)
  | value_only : T -> args                       (* init_code(code, value) *)
  | ec_only : error_code -> args.                (* init_code(code, ec) *)

Definition init_code (a : args) : storage_t :=
  match a with
  | no_args => (of_zero_literal, error_code_of error_number_limit)
  | value_ec value ec => (value, ec)
  | value_only value => (value, error_code_default)
  | ec_only ec => (value_init, ec)
  end.

Definition get_value (code : storage_t) : T := fst code.
Definition get_ok (code : storage_t) : bool := negb (error_code_bool (snd code)).
Definition get_error (code : storage_t) : error_code := snd code.

(** [operator==] of [std::tuple<T, error_code>]: element by element. *)
Definition storage_eqb (lhs rhs : storage_t) : bool :=
  payload_eqb (fst lhs) (fst rhs) && error_code_eqb (snd lhs) (snd rhs).
End GenericTraits.
Arguments storage_t {E} T.
Arguments args {E} T.
End generic_traits.

(** [struct default_traits<void, ___>] *)
Module void_traits.
Section VoidTraits.
Context {E : error_h}.

(** [using storage_t = error_code] *)
Definition storage_t : Type := error_code.

Inductive args : Type :=
  | no_args : args                               (* init_code(code) *)
  | ec_only : error_code -> args.                (* init_code(code, ec) *)

Definition init_code (a : args) : storage_t :=
  match a with
  | no_args => error_code_of error_number_limit
  | ec_only ec => ec
  end.

Definition get_ok (code : storage_t) : bool := negb (error_code_bool code).
Definition get_error (code : storage_t) : error_code := code.

Definition storage_eqb (lhs rhs : storage_t) : bool := error_code_eqb lhs rhs.
End VoidTraits.
End void_traits.

(** [struct default_traits<T, enable_if_t<is_integral<T>::value>>
    : generic_traits<T>] *)
Module integral_traits.
Section IntegralTraits.
Context {E : error_h}.

Definition storage_t : Type := generic_traits.storage_t Z.

(** [constexpr static T default_value()] *)
Definition default_value : Z := 0.

(** [init_code(code, value, ok)] of this struct, and the overloads brought
    in by [using generic_traits<T>::init_code].  In the first, the operands
    of the conditional expressions are brought to a common type at least as
    wide as [error_code_t], which keeps [0] and [error_number_limit], and
    [static_cast<error_code_t>] then reduces the outcome modulo
    [2 ^ error_code_t_bits]. *)
Inductive args : Type :=
  | value_ok : Z -> bool -> args
  | inherited : generic_traits.args Z -> args.

Definition init_code (a : args) : storage_t :=
  match a with
  | value_ok value ok =>
      (value,
       error_code_of
         (to_error_code_t
            (if ok then 0
             else if value =? default_value then error_number_limit
                  else value)))
  | inherited g => generic_traits.init_code g
  end.
End IntegralTraits.
End integral_traits.

(** [struct default_traits<T, enable_if_t<is_pointer<T>::value>>
    : generic_traits<T>] *)
Module pointer_traits.
Section PointerTraits.
Context {E : error_h}.

Definition storage_t : Type := generic_traits.storage_t pointer.

Definition default_value : pointer := nullptr.

(** The two overloads taking [std::nullptr_t], and the inherited ones
    (which take a [T value], null or not).  In [{nullptr, -1}] the [int]
    [-1] is converted to [error_code_t] for [error_code]'s constructor. *)
Inductive args : Type :=
  | null_ec : error_code -> args                 (* init_code(code, nullptr, ec) *)
  | null_only : args                             (* init_code(code, nullptr) *)
  | inherited : generic_traits.args pointer -> args.

Definition init_code (a : args) : storage_t :=
  match a with
  | null_ec ec => (nullptr, ec)
  | null_only => (nullptr, error_code_of (to_error_code_t (-1)))
  | inherited g => generic_traits.init_code g
  end.
End PointerTraits.
End pointer_traits.

End detail_result.

(** ** [class result] *)

(** The members a [TypeTraits] argument of [result<T, TypeTraits>] provides.
    [tt_args] stands for the argument lists [A...] for which
    [init_code(code, A...)] is well formed; [init_code] assigns to [code]
    without reading it, so it is a function from the arguments to the new
    storage. *)
Class type_traits {E : error_h} (T : Type) : Type := {
  tt_storage_t : Type;
  tt_args : Type;
  tt_init_code : tt_args -> tt_storage_t;
  tt_get_value : tt_storage_t -> T;
  tt_get_ok : tt_storage_t -> bool;
  tt_get_error : tt_storage_t -> error_code;
  tt_storage_eqb : tt_storage_t -> tt_storage_t -> bool
}.

(** The members used by the specialisation [result<void, TypeTraits>]. *)
Class void_type_traits {E : error_h} : Type := {
  vt_storage_t : Type;
  vt_args : Type;
  vt_init_code : vt_args -> vt_storage_t;
  vt_get_ok : vt_storage_t -> bool;
  vt_get_error : vt_storage_t -> error_code;
  vt_storage_eqb : vt_storage_t -> vt_storage_t -> bool
}.

#[export] Instance generic_traits {E : error_h} (T : Type) {P : payload T}
  : type_traits T := {|
  tt_storage_t := detail_result.generic_traits.storage_t T;
  tt_args := detail_result.generic_traits.args T;
  tt_init_code := detail_result.generic_traits.init_code;
  tt_get_value := detail_result.generic_traits.get_value;
  tt_get_ok := detail_result.generic_traits.get_ok;
  tt_get_error := detail_result.generic_traits.get_error;
  tt_storage_eqb := detail_result.generic_traits.storage_eqb
|}.
Arguments generic_traits {E} T {P}.

(** The accessors of the integral and pointer policies are those inherited
    from [generic_traits<T>]; only [init_code] gains overloads. *)
Definition integral_traits {E : error_h} : type_traits Z := {|
  tt_storage_t := detail_result.integral_traits.storage_t;
  tt_args := detail_result.integral_traits.args;
  tt_init_code := detail_result.integral_traits.init_code;
  tt_get_value := detail_result.generic_traits.get_value;
  tt_get_ok := detail_result.generic_traits.get_ok;
  tt_get_error := detail_result.generic_traits.get_error;
  tt_storage_eqb := detail_result.generic_traits.storage_eqb
|}.

Definition pointer_traits {E : error_h} : type_traits pointer := {|
  tt_storage_t := detail_result.pointer_traits.storage_t;
  tt_args := detail_result.pointer_traits.args;
  tt_init_code := detail_result.pointer_traits.init_code;
  tt_get_value := detail_result.generic_traits.get_value;
  tt_get_ok := detail_result.generic_traits.get_ok;
  tt_get_error := detail_result.generic_traits.get_error;
  tt_storage_eqb := detail_result.generic_traits.storage_eqb
|}.

#[export] Instance void_traits {E : error_h} : void_type_traits := {|
  vt_storage_t := detail_result.void_traits.storage_t;
  vt_args := detail_result.void_traits.args;
  vt_init_code := detail_result.void_traits.init_code;
  vt_get_ok := detail_result.void_traits.get_ok;
  vt_get_error := detail_result.void_traits.get_error;
  vt_storage_eqb := detail_result.void_traits.storage_eqb
|}.

(** [template <typename T, typename TypeTraits> class result] *)
Module result.
Section Result.
Context {E : error_h} {T : Type} (TypeTraits : type_traits T).

(** The object: its only data member is [storage_t code_]. *)
Record t : Type := { code_ : tt_storage_t }.

(** [result(A &&... args)] *)
Definition make (a : tt_args) : t := {| code_ := tt_init_code a |}.

Definition value (r : t) : T := tt_get_value (code_ r).
Definition ok (r : t) : bool := tt_get_ok (code_ r).
Definition error (r : t) : error_code := tt_get_error (code_ r).

(** [operator*] and [explicit operator bool] *)
Definition deref (r : t) : T := value r.
Definition to_bool (r : t) : bool := ok r.

(** [operator==] and [operator!=] *)
Definition eqb (lhs rhs : t) : bool := tt_storage_eqb (code_ lhs) (code_ rhs).
Definition neqb (lhs rhs : t) : bool := negb (eqb lhs rhs).
End Result.
End result.

(** [template <typename TypeTraits> class result<void, TypeTraits>] *)
Module result_void.
Section ResultVoid.
Context {E : error_h} (TypeTraits : void_type_traits).

Record t : Type := { code_ : vt_storage_t }.

Definition make (a : vt_args) : t := {| code_ := vt_init_code a |}.

Definition ok (r : t) : bool := vt_get_ok (code_ r).
Definition error (r : t) : error_code := vt_get_error (code_ r).
Definition to_bool (r : t) : bool := ok r.

Definition eqb (lhs rhs : t) : bool := vt_storage_eqb (code_ lhs) (code_ rhs).
Definition neqb (lhs rhs : t) : bool := negb (eqb lhs rhs).
End ResultVoid.
End result_void.

(** ** [src/libpmr/memory_resource.cpp] *)

Module pmr.

(** Result of a call into the C library made under [LIBIMP_TRY]: it returns,
    or an exception reaches one of the two [LIBIMP_CATCH] clauses. *)
Inductive outcome (A : Type) : Type :=
| returns : A -> outcome A
| throws_std : string -> outcome A          (* std::exception const &e, e.what() *)
| throws_unknown : outcome A.               (* catch (...) *)
Arguments throws_std {A} _.
Arguments throws_unknown {A}.

(** The three ways the file is built. *)
Inductive build : Type :=
| cpp_17       (* defined(LIBIMP_CPP_17) *)
| os_win       (* defined(LIBIMP_OS_WIN) *)
| posix.       (* else: try posix *)

(** The platform under the allocator: [std::size_t], [std::max_align_t], the
    preprocessor branch, and the C allocation routines acting on a heap
    whose representation is left open.  Sizes are integers of
    [[0, 2 ^ size_t_bits)]. *)
Class platform : Type := {
  size_t_bits : Z;
  max_align : Z;                                   (* alignof(std::max_align_t) *)
  built_as : build;
  heap : Type;
  std_malloc : Z -> heap -> pointer * heap;        (* std::malloc(bytes) *)
  std_aligned_alloc : Z -> Z -> heap -> outcome pointer * heap;
                                                   (* std::aligned_alloc(alignment, bytes) *)
  aligned_malloc : Z -> Z -> heap -> pointer * heap;
                                                   (* ::_aligned_malloc(bytes, alignment) *)
  posix_memalign : Z -> Z -> heap -> Z * pointer * heap;
                                                   (* ::posix_memalign(&p, alignment, bytes) *)
  std_free : pointer -> heap -> outcome unit * heap; (* std::free(p) *)
  aligned_free : pointer -> heap -> heap;          (* ::_aligned_free(p) *)
  c_free : pointer -> heap -> heap                 (* ::free(p) *)
}.

(** An argument of a log message. *)
Inductive log_arg : Type :=
| arg_size : Z -> log_arg
| arg_ptr : pointer -> log_arg
| arg_text : string -> log_arg
| arg_sys_error : Z -> log_arg.                    (* sys::error(ret) *)

(** Modelled from the spec: [libimp/log.h] is not among the sources.  The
    gripper made by [LIBIMP_LOG_()] is the sequence of diagnostics emitted so
    far; [log.error(fmt, args...)] appends one, made of the format string and
    its arguments. *)
Definition gripper : Type := list (string * list log_arg).

Definition log_error (log : gripper) (fmt : string) (args : list log_arg) : gripper :=
  log ++ [(fmt, args)].

Section MemoryResource.
Context {P : platform}.

(** Subtraction on [std::size_t] wraps. *)
Definition size_sub (a b : Z) : Z := (a - b) mod 2 ^ size_t_bits.

(** [bool verify_args(log, bytes, alignment)]: the returned flag and the log
    after the call. *)
Definition verify_args (log : gripper) (bytes alignment : Z) : bool * gripper :=
  if bytes =? 0 then (false, log)
  else if (alignment =? 0) || negb (Z.land alignment (size_sub alignment 1) =? 0)
  then (false,
        log_error log "invalid bytes = {}, alignment = {}"%string
                  [arg_size bytes; arg_size alignment])
  else (true, log).

(** What a member function of [new_delete_resource] can change: the heap and
    the diagnostics. *)
Record world : Type := { heap_of : heap; log_of : gripper }.

(** [void *new_delete_resource::allocate(bytes, alignment) noexcept] *)
Definition allocate (bytes alignment : Z) (w : world) : pointer * world :=
  let (verified, log) := verify_args (log_of w) bytes alignment in
  if negb verified then (nullptr, {| heap_of := heap_of w; log_of := log |})
  else if alignment <=? max_align then
    let (p, h) := std_malloc bytes (heap_of w) in
    (p, {| heap_of := h; log_of := log |})
  else
    match built_as with
    | cpp_17 =>
        match std_aligned_alloc alignment bytes (heap_of w) with
        | (returns p, h) => (p, {| heap_of := h; log_of := log |})
        | (throws_std what, h) =>
            (nullptr,
             {| heap_of := h;
                log_of := log_error log
                  "std::aligned_alloc(alignment = {}, bytes = {}) fails. error = {}"%string
                  [arg_size alignment; arg_size bytes; arg_text what] |})
        | (throws_unknown, h) =>
            (nullptr,
             {| heap_of := h;
                log_of := log_error log
                  "std::aligned_alloc(alignment = {}, bytes = {}) fails. error = unknown exception"%string
                  [arg_size alignment; arg_size bytes] |})
        end
    | os_win =>
        let (p, h) := aligned_malloc bytes alignment (heap_of w) in
        (p, {| heap_of := h; log_of := log |})
    | posix =>
        let '(ret, p, h) := posix_memalign alignment bytes (heap_of w) in
        if negb (ret =? 0) then
          (nullptr,
           {| heap_of := h;
              log_of := log_error log
                "posix_memalign(alignment = {}, bytes = {}) fails. error = {}"%string
                [arg_size alignment; arg_size bytes; arg_sys_error ret] |})
        else (p, {| heap_of := h; log_of := log |})
    end.

(** The lambda [std_free] of [deallocate]. *)
Definition deallocate_std_free (bytes alignment : Z) (p : pointer)
    (h : heap) (log : gripper) : world :=
  match std_free p h with
  | (returns _, h') => {| heap_of := h'; log_of := log |}
  | (throws_std what, h') =>
      {| heap_of := h';
         log_of := log_error log
           "std::free(p = {}) fails, alignment = {}, bytes = {}. error = {}"%string
           [arg_ptr p; arg_size alignment; arg_size bytes; arg_text what] |}
  | (throws_unknown, h') =>
      {| heap_of := h';
         log_of := log_error log
           "std::free(p = {}) fails, alignment = {}, bytes = {}. error = unknown exception"%string
           [arg_ptr p; arg_size alignment; arg_size bytes] |}
  end.

(** [void new_delete_resource::deallocate(p, bytes, alignment) noexcept] *)
Definition deallocate (p : pointer) (bytes alignment : Z) (w : world) : world :=
  match p with
  | nullptr => w
  | address _ =>
      let (verified, log) := verify_args (log_of w) bytes alignment in
      if negb verified then {| heap_of := heap_of w; log_of := log |}
      else
        match built_as with
        | cpp_17 => deallocate_std_free bytes alignment p (heap_of w) log
        | os_win =>
            if alignment <=? max_align
            then deallocate_std_free bytes alignment p (heap_of w) log
            else {| heap_of := aligned_free p (heap_of w); log_of := log |}
        | posix =>
            if alignment <=? max_align
            then deallocate_std_free bytes alignment p (heap_of w) log
            else {| heap_of := c_free p (heap_of w); log_of := log |}
        end
  end.

(** A lower-level allocation routine fails and [allocate] reports it: the
    over-aligned path of the [cpp_17] build when [std::aligned_alloc] throws,
    and of the posix build when [posix_memalign] returns non-zero. *)
Definition lower_level_failure (bytes alignment : Z) (w : world) : Prop :=
  max_align < alignment /\
  match built_as with
  | cpp_17 =>
      match fst (std_aligned_alloc alignment bytes (heap_of w)) with
      | returns _ => False
      | _ => True
      end
  | os_win => False
  | posix => fst (fst (posix_memalign alignment bytes (heap_of w))) <> 0
  end.
End MemoryResource.

(** [alignment] is a power of two. *)
Definition power_of_two (alignment : Z) : Prop :=
  exists k : Z, 0 <= k /\ alignment = 2 ^ k.

(** An argument of type [std::size_t]. *)
Definition is_size_t {P : platform} (n : Z) : Prop := 0 <= n < 2 ^ size_t_bits.

End pmr.

(** ** Vocabulary of the properties *)

(** Success is read off the stored error code: [ok] is the negation of the
    code's truth value, it holds exactly when the code is the no-error
    sentinel, and the conversion to [bool] is [ok]. *)
Definition ok_from_error {E : error_h}
    (ok : bool) (error : error_code) (to_bool : bool) : Prop :=
  ok = negb (error_code_bool error) /\
  (ok = true <-> error = error_code_default) /\
  to_bool = ok.

(** A boolean comparison that is reflexive, symmetric and transitive. *)
Definition eqb_equivalence {A : Type} (eqb : A -> A -> bool) : Prop :=
  (forall a : A, eqb a a = true) /\
  (forall a b : A, eqb a b = eqb b a) /\
  (forall a b c : A, eqb a b = true -> eqb b c = true -> eqb a c = true).

(** A call into the C library, as seen from outside. *)
Inductive call : Type :=
| call_malloc : Z -> call                        (* std::malloc(bytes) *)
| call_aligned_alloc : Z -> Z -> call            (* std::aligned_alloc(alignment, bytes) *)
| call_aligned_malloc : Z -> Z -> call           (* ::_aligned_malloc(bytes, alignment) *)
| call_posix_memalign : Z -> Z -> call           (* ::posix_memalign(&p, alignment, bytes) *)
| call_std_free : pointer -> call                (* std::free(p) *)
| call_aligned_free : pointer -> call            (* ::_aligned_free(p) *)
| call_c_free : pointer -> call.                 (* ::free(p) *)

(** The release routine that goes with an allocation routine: [free] for
    [malloc], [aligned_alloc] and [posix_memalign], [_aligned_free] for
    [_aligned_malloc]. *)
Definition releases (allocation release : call) : bool :=
  match allocation, release with
  | call_malloc _, call_std_free _ => true
  | call_aligned_alloc _ _, call_std_free _ => true
  | call_aligned_malloc _ _, call_aligned_free _ => true
  | call_posix_memalign _ _, call_c_free _ => true
  | _, _ => false
  end.

(** The pointer handed to a release routine. *)
Definition released (c : call) : option pointer :=
  match c with
  | call_std_free p | call_aligned_free p | call_c_free p => Some p
  | _ => None
  end.

(** ** Instances used to run the definitions *)

(** An [error_code] that is its number, over a 64-bit [error_code_t] whose
    largest value is [error_number_limit]. *)
Definition error_u64 : error_h := {|
  error_code := Z;
  error_code_t_bits := 64;
  error_number_limit := 2 ^ 64 - 1;
  error_code_of := fun c => c;
  error_code_default := 0;
  error_code_bool := fun e => negb (e =? 0);
  error_code_eqb := Z.eqb
|}.

(** A payload type that is neither integral nor a pointer. *)
#[export] Instance string_payload : payload string := {|
  value_init := EmptyString;
  of_zero_literal := EmptyString;
  payload_eqb := String.eqb
|}.

(** A 64-bit posix platform with a bump allocator: the heap is the next free
    address, and an over-aligned request above 4096 fails with [EINVAL]. *)
Definition bump_posix : pmr.platform := {|
  pmr.size_t_bits := 64;
  pmr.max_align := 16;
  pmr.built_as := pmr.posix;
  pmr.heap := positive;
  pmr.std_malloc := fun bytes h => (address h, (h + Z.to_pos bytes)%positive);
  pmr.std_aligned_alloc := fun _ bytes h =>
    (pmr.returns (address h), (h + Z.to_pos bytes)%positive);
  pmr.aligned_malloc := fun bytes _ h => (address h, (h + Z.to_pos bytes)%positive);
  pmr.posix_memalign := fun alignment bytes h =>
    if 4096 <? alignment then (22, nullptr, h)
    else (0, address h, (h + Z.to_pos bytes)%positive);
  pmr.std_free := fun _ h => (pmr.returns tt, h);
  pmr.aligned_free := fun _ h => h;
  pmr.c_free := fun _ h => h
|}.

(** Nothing allocated and nothing logged yet. *)
Definition fresh_world : @pmr.world bump_posix :=
  @pmr.Build_world bump_posix 1%positive [].

(** A platform that records the calls made into the C library: the heap is
    the sequence of calls so far, every allocation routine succeeds and
    answers [answer], and [std::free] returns. *)
Definition recording (bits alignof_max : Z) (b : pmr.build) (answer : pointer)
  : pmr.platform := {|
  pmr.size_t_bits := bits;
  pmr.max_align := alignof_max;
  pmr.built_as := b;
  pmr.heap := list call;
  pmr.std_malloc := fun bytes h => (answer, h ++ [call_malloc bytes]);
  pmr.std_aligned_alloc := fun alignment bytes h =>
    (pmr.returns answer, h ++ [call_aligned_alloc alignment bytes]);
  pmr.aligned_malloc := fun bytes alignment h =>
    (answer, h ++ [call_aligned_malloc bytes alignment]);
  pmr.posix_memalign := fun alignment bytes h =>
    (0, answer, h ++ [call_posix_memalign alignment bytes]);
  pmr.std_free := fun p h => (pmr.returns tt, h ++ [call_std_free p]);
  pmr.aligned_free := fun p h => h ++ [call_aligned_free p];
  pmr.c_free := fun p h => h ++ [call_c_free p]
|}.

(** * Properties of [result] *)

Import detail_result.

(** [error_u64] meets the contract of the spec. *)
Lemma error_u64_contract : error_contract error_u64.
Proof.
  constructor; simpl.
  - lia.
  - lia.
  - lia.
  - intros e. rewrite negb_false_iff. apply Z.eqb_eq.
  - intros c _. reflexivity.
  - intros a b. apply Z.eqb_eq.
Qed.

Section ErrorFacts.
Context {E : error_h} {HE : error_contract E}.

Lemma error_code_bool_default : error_code_bool error_code_default = false.
Proof. apply error_code_bool_spec. reflexivity. Qed.

Lemma pow2_bits_gt_1 : 1 < 2 ^ error_code_t_bits.
Proof.
  pose proof error_code_t_bits_pos as Hb.
  replace error_code_t_bits with (Z.succ (error_code_t_bits - 1)) by lia.
  rewrite Z.pow_succ_r by lia.
  assert (0 < 2 ^ (error_code_t_bits - 1)) by (apply Z.pow_pos_nonneg; lia).
  lia.
Qed.

Lemma to_error_code_t_range (z : Z) :
  0 <= to_error_code_t z < 2 ^ error_code_t_bits.
Proof.
  unfold to_error_code_t. apply Z.mod_pos_bound.
  pose proof pow2_bits_gt_1. lia.
Qed.

Lemma to_error_code_t_small (z : Z) :
  0 <= z < 2 ^ error_code_t_bits -> to_error_code_t z = z.
Proof. intros H. unfold to_error_code_t. apply Z.mod_small. exact H. Qed.

Lemma error_code_of_zero : error_code_of (to_error_code_t 0) = error_code_default.
Proof.
  pose proof pow2_bits_gt_1.
  rewrite to_error_code_t_small by lia.
  apply error_code_of_spec; [lia | reflexivity].
Qed.

(** A code built from a number is truthy exactly when the number, taken as
    an [error_code_t], is not zero. *)
Lemma error_code_bool_of (z : Z) :
  error_code_bool (error_code_of (to_error_code_t z))
  = negb (to_error_code_t z =? 0).
Proof.
  pose proof (to_error_code_t_range z) as Hr.
  destruct (Z.eqb_spec (to_error_code_t z) 0) as [H0 | H0]; simpl.
  - apply error_code_bool_spec. apply error_code_of_spec; assumption.
  - apply not_false_iff_true. intros Hf.
    apply error_code_bool_spec in Hf.
    apply error_code_of_spec in Hf; [contradiction | assumption].
Qed.

Lemma to_error_code_t_limit : to_error_code_t error_number_limit = error_number_limit.
Proof. apply to_error_code_t_small. apply error_number_limit_range. Qed.

Lemma to_error_code_t_minus_1 : to_error_code_t (-1) = 2 ^ error_code_t_bits - 1.
Proof.
  pose proof pow2_bits_gt_1.
  unfold to_error_code_t.
  symmetry. apply Z.mod_unique with (q := -1); lia.
Qed.

(** A value of an integral type no wider than [error_code_t] is zero as an
    [error_code_t] only if it is zero. *)
Lemma to_error_code_t_nonzero (it : integral) (v : Z) :
  in_range it v -> 0 < width it <= error_code_t_bits -> v <> 0 ->
  to_error_code_t v <> 0.
Proof.
  intros Hr [Hw0 Hw] Hv.
  assert (Hlt : - 2 ^ error_code_t_bits < v < 2 ^ error_code_t_bits).
  { assert (2 ^ width it <= 2 ^ error_code_t_bits)
      by (apply Z.pow_le_mono_r; lia).
    assert (2 ^ (width it - 1) < 2 ^ width it)
      by (apply Z.pow_lt_mono_r; lia).
    unfold in_range in Hr. destruct (is_signed it); lia. }
  unfold to_error_code_t. intros Hm.
  apply Z.mod_divide in Hm; [| lia].
  destruct Hm as [q Hq].
  set (m := 2 ^ error_code_t_bits) in *.
  assert (Hq' : q = 0 \/ 1 <= q \/ q <= -1) by lia.
  destruct Hq' as [-> | [Hq' | Hq']]; nia.
Qed.

Lemma to_error_code_t_odd (z : Z) : Z.odd z = true -> to_error_code_t z <> 0.
Proof.
  intros Hodd Hm. pose proof error_code_t_bits_pos as Hb.
  unfold to_error_code_t in Hm.
  apply Z.mod_divide in Hm; [| pose proof pow2_bits_gt_1; lia].
  destruct Hm as [q Hq].
  replace error_code_t_bits with (Z.succ (error_code_t_bits - 1)) in Hq by lia.
  rewrite Z.pow_succ_r in Hq by lia.
  rewrite Hq in Hodd.
  replace (q * (2 * 2 ^ (error_code_t_bits - 1)))
    with (2 * (q * 2 ^ (error_code_t_bits - 1))) in Hodd by ring.
  rewrite Z.odd_mul in Hodd. discriminate.
Qed.
(** The code built from [-1] is truthy. *)
Lemma error_code_bool_minus_1 :
  error_code_bool (error_code_of (to_error_code_t (-1))) = true.
Proof.
  rewrite error_code_bool_of. apply negb_true_iff, Z.eqb_neq.
  apply to_error_code_t_odd. reflexivity.
Qed.
End ErrorFacts.

(** ** The integral policy *)

(** C1. Integral policy: the result built from [(0, false)] is not ok and its
    error code is the uninitialized sentinel [error_number_limit]; that code
    is neither the number 0 taken as an error code nor the no-error
    sentinel. *)
Theorem integral_zero_failure_is_uninitialized
    (E : error_h) (HE : error_contract E) :
  let r := result.make integral_traits (integral_traits.value_ok 0 false) in
  result.ok r = false /\
  result.error r = error_code_of error_number_limit /\
  result.error r <> error_code_of (to_error_code_t 0) /\
  result.error r <> error_code_default.
Proof.
  cbv zeta.
  assert (Herr : result.error
            (result.make integral_traits (integral_traits.value_ok 0 false))
          = error_code_of error_number_limit).
  { unfold result.error, result.make; simpl.
    unfold generic_traits.get_error; simpl.
    rewrite to_error_code_t_limit. reflexivity. }
  assert (Hne : error_code_of error_number_limit <> error_code_default).
  { intros H. apply error_code_of_spec in H.
    - apply error_number_limit_nonzero. exact H.
    - apply error_number_limit_range. }
  split; [| split; [exact Herr | split]].
  - unfold result.ok, result.make; simpl.
    unfold generic_traits.get_ok; simpl.
    rewrite error_code_bool_of, to_error_code_t_limit.
    apply negb_false_iff, negb_true_iff, Z.eqb_neq.
    apply error_number_limit_nonzero.
  - rewrite Herr, error_code_of_zero. exact Hne.
  - rewrite Herr. exact Hne.
Qed.

Lemma integral_zero_failure_is_uninitialized_witness :
  error_contract error_u64 /\
  let r := result.make (E := error_u64) integral_traits
             (integral_traits.value_ok 0 false) in
  result.ok r = false /\
  result.error r = 18446744073709551615 /\
  result.error r <> 0.
Proof.
  split; [exact error_u64_contract |].
  pose proof (@integral_zero_failure_is_uninitialized error_u64 error_u64_contract)
    as (Hok & Herr & Hzero & _).
  exact (conj Hok (conj Herr Hzero)).
Defined.

(** C3. Integral policy: [(v, true)] gives an ok result whose error is the
    no-error sentinel, for every [v]; for [v <> 0] of an integral type no
    wider than [error_code_t], [(v, false)] gives a result that is not ok,
    whose error is [v] converted to [error_code_t] (a non-zero number, [v]
    itself when [v] is not negative) and whose value is [v]. *)
Theorem integral_value_ok_flag
    (E : error_h) (HE : error_contract E) (it : integral) (v : Z)
    (Hv : in_range it v) (Hw : 0 < width it <= error_code_t_bits) :
  (let r := result.make integral_traits (integral_traits.value_ok v true) in
   result.ok r = true /\ result.error r = error_code_default /\
   result.value r = v) /\
  (v <> 0 ->
   let r := result.make integral_traits (integral_traits.value_ok v false) in
   result.ok r = false /\
   result.error r = error_code_of (to_error_code_t v) /\
   to_error_code_t v <> 0 /\
   (0 <= v -> to_error_code_t v = v) /\
   result.value r = v).
Proof.
  cbv zeta. unfold result.ok, result.error, result.value, result.make; simpl.
  unfold generic_traits.get_ok, generic_traits.get_error,
    generic_traits.get_value; simpl.
  split.
  - rewrite error_code_of_zero.
    rewrite error_code_bool_default. repeat split.
  - intros Hnz.
    unfold integral_traits.default_value.
    destruct (Z.eqb_spec v 0) as [Hz | _]; [contradiction |].
    pose proof (@to_error_code_t_nonzero E it v Hv Hw Hnz) as Hc.
    rewrite error_code_bool_of.
    repeat split.
    + apply negb_false_iff, negb_true_iff, Z.eqb_neq. exact Hc.
    + exact Hc.
    + intros Hpos. apply to_error_code_t_small.
      assert (2 ^ width it <= 2 ^ error_code_t_bits)
        by (apply Z.pow_le_mono_r; lia).
      assert (2 ^ (width it - 1) < 2 ^ width it)
        by (apply Z.pow_lt_mono_r; lia).
      unfold in_range in Hv. destruct (is_signed it); lia.
Qed.

Lemma integral_value_ok_flag_witness :
  let int32 := {| is_signed := true; width := 32 |} in
  in_range int32 5 /\
  (let r := result.make (E := error_u64) integral_traits
              (integral_traits.value_ok 5 true) in
   result.ok r = true /\ result.error r = 0) /\
  (let r := result.make (E := error_u64) integral_traits
              (integral_traits.value_ok 5 false) in
   result.ok r = false /\ result.error r = 5 /\ result.value r = 5).
Proof.
  assert (Hr : in_range {| is_signed := true; width := 32 |} 5)
    by (unfold in_range; simpl; lia).
  assert (Hw : 0 < width {| is_signed := true; width := 32 |}
               <= error_code_t_bits (error_h := error_u64))
    by (simpl; lia).
  pose proof (@integral_value_ok_flag error_u64 error_u64_contract
                {| is_signed := true; width := 32 |} 5 Hr Hw)
    as [(Hok & Herr & _) Hfail].
  assert (H5 : 5 <> 0) by lia.
  destruct (Hfail H5) as (Hnok & Hferr & _ & _ & Hval).
  cbv zeta. repeat split; try assumption; lia.
Defined.

(** ** Success and the stored code *)

Lemma ok_from_error_negb (E : error_h) (HE : error_contract E) (e : error_code) :
  ok_from_error (negb (error_code_bool e)) e (negb (error_code_bool e)).
Proof.
  unfold ok_from_error. split; [reflexivity | split; [| reflexivity]].
  rewrite negb_true_iff. apply error_code_bool_spec.
Qed.

(** C2. For each of the four policies and every result value, hence for the
    result of every construction: [ok()] is [!error()], [ok()] holds exactly
    when [error()] is the no-error sentinel, and the conversion to [bool]
    agrees with [ok()]. *)
Theorem ok_is_read_from_error (E : error_h) (HE : error_contract E) :
  (forall (T : Type) (P : payload T) (r : result.t (generic_traits T)),
      ok_from_error (result.ok r) (result.error r) (result.to_bool r)) /\
  (forall r : result.t integral_traits,
      ok_from_error (result.ok r) (result.error r) (result.to_bool r)) /\
  (forall r : result.t pointer_traits,
      ok_from_error (result.ok r) (result.error r) (result.to_bool r)) /\
  (forall r : result_void.t void_traits,
      ok_from_error (result_void.ok r) (result_void.error r)
                    (result_void.to_bool r)).
Proof.
  repeat split; intros; apply ok_from_error_negb; assumption.
Qed.

Lemma ok_is_read_from_error_witness :
  error_contract error_u64 /\
  let r := result.make (E := error_u64) integral_traits
             (integral_traits.value_ok 7 false) in
  ok_from_error (result.ok r) (result.error r) (result.to_bool r) /\
  result.ok r = false /\ result.error r = 7.
Proof.
  split; [exact error_u64_contract |].
  destruct (@ok_is_read_from_error error_u64 error_u64_contract)
    as (_ & Hint & _ & _).
  cbv zeta. split; [apply Hint | split; reflexivity].
Defined.

(** ** The policy of [result<void>] *)

(** C4. [result<void>]: the construction without arguments stores the
    uninitialized sentinel and is not ok; the construction from an error code
    stores that code, so it is ok exactly when the code is the no-error
    sentinel; in particular it is ok for the no-error sentinel. *)
Theorem void_construction (E : error_h) (HE : error_contract E) :
  (let r := result_void.make void_traits void_traits.no_args in
   result_void.error r = error_code_of error_number_limit /\
   result_void.ok r = false) /\
  (forall ec : error_code,
     let r := result_void.make void_traits (void_traits.ec_only ec) in
     result_void.error r = ec /\
     result_void.ok r = negb (error_code_bool ec) /\
     (result_void.ok r = true <-> ec = error_code_default)) /\
  result_void.ok
    (result_void.make void_traits (void_traits.ec_only error_code_default))
  = true.
Proof.
  cbv zeta. unfold result_void.ok, result_void.error, result_void.make; simpl.
  unfold void_traits.get_ok, void_traits.get_error.
  split; [split; [reflexivity |] | split].
  - rewrite <- to_error_code_t_limit at 1.
    rewrite error_code_bool_of, to_error_code_t_limit.
    apply negb_false_iff, negb_true_iff, Z.eqb_neq.
    apply error_number_limit_nonzero.
  - intros ec. split; [reflexivity | split; [reflexivity |]].
    rewrite negb_true_iff. apply error_code_bool_spec.
  - rewrite error_code_bool_default. reflexivity.
Qed.

Lemma void_construction_witness :
  error_contract error_u64 /\
  result_void.ok (result_void.make (E := error_u64) void_traits
                    void_traits.no_args) = false /\
  result_void.ok (result_void.make (E := error_u64) void_traits
                    (void_traits.ec_only (E := error_u64) 0)) = true /\
  result_void.ok (result_void.make (E := error_u64) void_traits
                    (void_traits.ec_only (E := error_u64) 13)) = false.
Proof.
  split; [exact error_u64_contract |].
  destruct (@void_construction error_u64 error_u64_contract)
    as ((_ & Hdef) & Hec & Hnone).
  split; [exact Hdef | split; [exact Hnone |]].
  destruct (Hec 13) as (_ & Hok & _). exact Hok.
Defined.

(** ** The pointer policy *)

(** C5. Pointer policy: the construction from [nullptr] alone stores a null
    value with the error code built from [-1] (the largest [error_code_t]),
    and is not ok; the construction from [(nullptr, code)] stores a null
    value and [code] as given. *)
Theorem pointer_null_construction (E : error_h) (HE : error_contract E) :
  (let r := result.make pointer_traits pointer_traits.null_only in
   result.error r = error_code_of (to_error_code_t (-1)) /\
   to_error_code_t (-1) = 2 ^ error_code_t_bits - 1 /\
   result.ok r = false /\
   result.value r = nullptr) /\
  (forall code : error_code,
     let r := result.make pointer_traits (pointer_traits.null_ec code) in
     result.error r = code /\ result.value r = nullptr).
Proof.
  cbv zeta. unfold result.ok, result.error, result.value, result.make; simpl.
  unfold generic_traits.get_ok, generic_traits.get_error,
    generic_traits.get_value; simpl.
  split; [| intros code; split; reflexivity].
  split; [reflexivity |].
  split; [apply to_error_code_t_minus_1 |].
  split; [| reflexivity].
  rewrite error_code_bool_minus_1. reflexivity.
Qed.

Lemma pointer_null_construction_witness :
  error_contract error_u64 /\
  (let r := result.make (E := error_u64) pointer_traits
              pointer_traits.null_only in
   result.error r = 18446744073709551615 /\ result.ok r = false) /\
  (let r := result.make (E := error_u64) pointer_traits
              (pointer_traits.null_ec (E := error_u64) 42) in
   result.error r = 42 /\ result.value r = nullptr).
Proof.
  split; [exact error_u64_contract |].
  destruct (@pointer_null_construction error_u64 error_u64_contract)
    as ((Herr & _ & Hok & _) & Hcode).
  split; [exact (conj Herr Hok) | exact (Hcode 42)].
Defined.

(** A pointer passed as a [T value], null or not, is taken by the inherited
    overload [init_code(code, value)]: only the literal [nullptr] selects the
    overload that stores the code built from [-1]. *)
Lemma pointer_value_only_is_ok (E : error_h) (HE : error_contract E) (p : pointer) :
  let r := result.make pointer_traits
             (pointer_traits.inherited (generic_traits.value_only p)) in
  result.ok r = true /\ result.value r = p /\
  result.error r = error_code_default.
Proof.
  cbv zeta. unfold result.ok, result.error, result.value, result.make; simpl.
  unfold generic_traits.get_ok, generic_traits.get_error,
    generic_traits.get_value; simpl.
  rewrite error_code_bool_default. repeat split.
Qed.

(** C10. Pointer policy: the construction from [(nullptr, ec)] with [ec] the
    no-error sentinel is ok although the stored value is null, whereas the
    construction from [nullptr] alone is not ok. *)
Theorem pointer_null_with_no_error_is_ok (E : error_h) (HE : error_contract E) :
  let r := result.make pointer_traits
             (pointer_traits.null_ec error_code_default) in
  result.ok r = true /\
  result.to_bool r = true /\
  result.value r = nullptr /\
  result.error r = error_code_default /\
  result.ok (result.make pointer_traits pointer_traits.null_only) = false.
Proof.
  cbv zeta.
  unfold result.to_bool, result.ok, result.error, result.value, result.make;
    simpl.
  unfold generic_traits.get_ok, generic_traits.get_error,
    generic_traits.get_value; simpl.
  rewrite error_code_bool_default, error_code_bool_minus_1.
  repeat split.
Qed.

Lemma pointer_null_with_no_error_is_ok_witness :
  error_contract error_u64 /\
  let r := result.make (E := error_u64) pointer_traits
             (pointer_traits.null_ec (E := error_u64) 0) in
  result.ok r = true /\ result.value r = nullptr.
Proof.
  split; [exact error_u64_contract |].
  destruct (@pointer_null_with_no_error_is_ok error_u64 error_u64_contract)
    as (Hok & _ & Hval & _).
  exact (conj Hok Hval).
Defined.

(** ** The generic policy *)

(** C6. Generic policy: the construction from a value alone stores the value
    with the no-error sentinel, so the result is ok and [value()] is that
    value; the construction from an error code alone stores [T{}] with the
    code, so [value()] is the default value of [T] and [error()] the code. *)
Theorem generic_single_argument
    (E : error_h) (HE : error_contract E) (T : Type) (P : payload T) :
  (forall value : T,
     let r := result.make (generic_traits T) (generic_traits.value_only value) in
     result.code_ r = (value, error_code_default) /\
     result.ok r = true /\
     result.value r = value /\
     result.error r = error_code_default) /\
  (forall ec : error_code,
     let r := result.make (generic_traits T) (generic_traits.ec_only ec) in
     result.code_ r = (value_init, ec) /\
     result.value r = value_init /\
     result.error r = ec).
Proof.
  cbv zeta. unfold result.ok, result.error, result.value, result.make; simpl.
  unfold generic_traits.get_ok, generic_traits.get_error,
    generic_traits.get_value; simpl.
  split.
  - intros value. rewrite error_code_bool_default. repeat split.
  - intros ec. repeat split.
Qed.

Lemma generic_single_argument_witness :
  error_contract error_u64 /\
  (let r := result.make (E := error_u64) (generic_traits string)
              (generic_traits.value_only "shm"%string) in
   result.ok r = true /\ result.value r = "shm"%string /\ result.error r = 0) /\
  (let r := result.make (E := error_u64) (generic_traits string)
              (generic_traits.ec_only (E := error_u64) 9) in
   result.value r = EmptyString /\ result.error r = 9).
Proof.
  split; [exact error_u64_contract |].
  destruct (@generic_single_argument error_u64 error_u64_contract
              string string_payload) as (Hvalue & Hec).
  destruct (Hvalue "shm"%string) as (_ & Hok & Hval & Herr).
  destruct (Hec 9) as (_ & Hdef & Hcode).
  exact (conj (conj Hok (conj Hval Herr)) (conj Hdef Hcode)).
Defined.

(** ** Comparison *)

Lemma pointer_eqb_spec (p q : pointer) : pointer_eqb p q = true <-> p = q.
Proof.
  destruct p as [| a], q as [| b]; simpl; split; intros H;
    try reflexivity; try discriminate.
  - apply Pos.eqb_eq in H. subst. reflexivity.
  - injection H as ->. apply Pos.eqb_refl.
Qed.

(** Comparison of [std::tuple<T, error_code>] decides equality of both
    fields as soon as [operator==] of [T] decides equality. *)
Lemma storage_eqb_spec (E : error_h) (HE : error_contract E)
    (T : Type) (P : payload T)
    (HP : forall a b : T, payload_eqb a b = true <-> a = b)
    (lhs rhs : generic_traits.storage_t T) :
  generic_traits.storage_eqb lhs rhs = true
  <-> fst lhs = fst rhs /\ snd lhs = snd rhs.
Proof.
  unfold generic_traits.storage_eqb.
  rewrite andb_true_iff, HP, error_code_eqb_spec. reflexivity.
Qed.

(** Codes built from numbers that differ as [error_code_t] where one of
    them is zero are told apart by [operator==]. *)
Lemma error_code_eqb_zero_nonzero (E : error_h) (HE : error_contract E) (z : Z) :
  to_error_code_t z <> 0 ->
  error_code_eqb (error_code_of (to_error_code_t 0))
                 (error_code_of (to_error_code_t z)) = false.
Proof.
  intros Hz. apply not_true_iff_false. intros Heq.
  apply error_code_eqb_spec in Heq.
  rewrite error_code_of_zero in Heq. symmetry in Heq.
  apply error_code_of_spec in Heq; [contradiction |].
  apply to_error_code_t_range.
Qed.

(** C7. Two results compare equal exactly when their storage does, field by
    field: value and error code for the policies with a payload, the error
    code for [result<void>]; [operator!=] is the negation of [operator==].
    [(5, true)] equals itself, differs from [(5, false)], and differs from
    [(6, true)] although both are ok. *)
Theorem result_equality (E : error_h) (HE : error_contract E) :
  (forall (T : Type) (P : payload T) (lhs rhs : result.t (generic_traits T)),
     result.eqb lhs rhs
     = payload_eqb (result.value lhs) (result.value rhs)
       && error_code_eqb (result.error lhs) (result.error rhs) /\
     result.neqb lhs rhs = negb (result.eqb lhs rhs)) /\
  (forall lhs rhs : result.t integral_traits,
     (result.eqb lhs rhs = true
      <-> result.value lhs = result.value rhs /\
          result.error lhs = result.error rhs) /\
     result.neqb lhs rhs = negb (result.eqb lhs rhs)) /\
  (forall lhs rhs : result.t pointer_traits,
     (result.eqb lhs rhs = true
      <-> result.value lhs = result.value rhs /\
          result.error lhs = result.error rhs) /\
     result.neqb lhs rhs = negb (result.eqb lhs rhs)) /\
  (forall lhs rhs : result_void.t void_traits,
     (result_void.eqb lhs rhs = true
      <-> result_void.error lhs = result_void.error rhs) /\
     result_void.neqb lhs rhs = negb (result_void.eqb lhs rhs)) /\
  (let five_ok := result.make integral_traits (integral_traits.value_ok 5 true) in
   let five_failed := result.make integral_traits (integral_traits.value_ok 5 false) in
   let six_ok := result.make integral_traits (integral_traits.value_ok 6 true) in
   result.eqb five_ok five_ok = true /\
   result.eqb five_ok five_failed = false /\
   result.neqb five_ok five_failed = true /\
   result.ok five_ok = true /\ result.ok six_ok = true /\
   result.eqb five_ok six_ok = false).
Proof.
  split; [intros; split; reflexivity |].
  split; [intros lhs rhs; split; [| reflexivity];
          apply (storage_eqb_spec HE integral_payload Z.eqb_eq) |].
  split; [intros lhs rhs; split; [| reflexivity];
          apply (storage_eqb_spec HE pointer_payload pointer_eqb_spec) |].
  split; [intros lhs rhs; split; [| reflexivity];
          apply error_code_eqb_spec |].
  cbv zeta.
  assert (H5 : to_error_code_t 5 <> 0) by (apply to_error_code_t_odd; reflexivity).
  unfold result.neqb, result.eqb, result.ok, result.make; simpl.
  unfold generic_traits.storage_eqb, generic_traits.get_ok; simpl.
  rewrite (@error_code_eqb_zero_nonzero E HE 5 H5).
  rewrite error_code_of_zero, error_code_bool_default.
  replace (error_code_eqb error_code_default error_code_default) with true
    by (symmetry; apply error_code_eqb_spec; reflexivity).
  repeat split.
Qed.

Lemma result_equality_witness :
  error_contract error_u64 /\
  (let five_ok := result.make (E := error_u64) integral_traits
                    (integral_traits.value_ok 5 true) in
   let five_failed := result.make (E := error_u64) integral_traits
                        (integral_traits.value_ok 5 false) in
   result.eqb five_ok five_ok = true /\
   result.neqb five_ok five_failed = true).
Proof.
  split; [exact error_u64_contract |].
  destruct (@result_equality error_u64 error_u64_contract)
    as (_ & _ & _ & _ & Hsame & _ & Hdiff & _).
  exact (conj Hsame Hdiff).
Defined.

(** * Properties of [new_delete_resource] *)

Import pmr.

(** ** The bit test of [verify_args] *)

Lemma power_of_two_pos (a : Z) : power_of_two a -> 0 < a.
Proof. intros (k & Hk & ->). apply Z.pow_pos_nonneg; lia. Qed.

Lemma land_pred_power_of_two (a : Z) : power_of_two a -> Z.land a (a - 1) = 0.
Proof.
  intros (k & Hk & ->).
  replace (2 ^ k - 1) with (Z.ones k) by (rewrite Z.ones_equiv; lia).
  rewrite Z.land_ones by exact Hk.
  apply Z.mod_same. apply Z.pow_nonzero; lia.
Qed.

(** A positive number that shares no bit with its predecessor has a single
    bit set, the one at [Z.log2 a]. *)
Lemma land_pred_zero_power_of_two (a : Z) :
  0 < a -> Z.land a (a - 1) = 0 -> power_of_two a.
Proof.
  intros Hpos Hland.
  pose proof (Z.log2_nonneg a) as Hk.
  pose proof (Z.log2_spec a Hpos) as [Hlo Hhi].
  exists (Z.log2 a). split; [exact Hk |].
  destruct (Z.eq_dec a (2 ^ Z.log2 a)) as [Heq | Hne]; [exact Heq |].
  exfalso.
  assert (Hpred : Z.log2 (a - 1) = Z.log2 a)
    by (apply Z.log2_unique; [exact Hk | lia]).
  assert (Hbit : Z.testbit (Z.land a (a - 1)) (Z.log2 a) = true).
  { rewrite Z.land_spec, Z.bit_log2 by exact Hpos.
    rewrite <- Hpred. apply Z.bit_log2.
    assert (0 < 2 ^ Z.log2 a) by (apply Z.pow_pos_nonneg; lia). lia. }
  rewrite Hland, Z.bits_0 in Hbit. discriminate.
Qed.

Section VerifyArgs.
Context {P : platform}.

Lemma size_sub_1 (alignment : Z) :
  is_size_t alignment -> alignment <> 0 -> size_sub alignment 1 = alignment - 1.
Proof.
  unfold is_size_t, size_sub. intros Hr Hnz. apply Z.mod_small. lia.
Qed.

(** [verify_args] accepts exactly a non-zero [bytes] with an [alignment]
    that is a power of two. *)
Lemma verify_args_accepts (log : gripper) (bytes alignment : Z) :
  is_size_t alignment ->
  (fst (verify_args log bytes alignment) = true
   <-> bytes <> 0 /\ power_of_two alignment).
Proof.
  intros Hr. unfold verify_args.
  destruct (Z.eqb_spec bytes 0) as [Hb | Hb]; simpl.
  { split; [discriminate | intros [H _]; contradiction]. }
  destruct (Z.eqb_spec alignment 0) as [Ha | Ha]; simpl.
  { split; [discriminate |].
    intros [_ Hp]. apply power_of_two_pos in Hp. lia. }
  rewrite size_sub_1 by assumption.
  destruct (Z.eqb_spec (Z.land alignment (alignment - 1)) 0) as [Hl | Hl]; simpl.
  - split; [| reflexivity]. intros _. split; [exact Hb |].
    apply land_pred_zero_power_of_two; [unfold is_size_t in Hr; lia | exact Hl].
  - split; [discriminate |].
    intros [_ Hp]. apply land_pred_power_of_two in Hp. contradiction.
Qed.

Lemma verify_args_rejects (log : gripper) (bytes alignment : Z) :
  is_size_t alignment ->
  bytes = 0 \/ ~ power_of_two alignment ->
  fst (verify_args log bytes alignment) = false.
Proof.
  intros Hr Hinv. apply not_true_iff_false. intros Hv.
  apply verify_args_accepts in Hv; [| exact Hr].
  destruct Hv as [Hb Hp]. destruct Hinv; contradiction.
Qed.

(** The log after [verify_args]: untouched when [bytes] is zero or the
    arguments are accepted, one more diagnostic otherwise. *)
Lemma verify_args_log (log : gripper) (bytes alignment : Z) :
  snd (verify_args log bytes alignment)
  = if (bytes =? 0) || fst (verify_args log bytes alignment) then log
    else log_error log "invalid bytes = {}, alignment = {}"%string
                   [arg_size bytes; arg_size alignment].
Proof.
  unfold verify_args.
  destruct (bytes =? 0); simpl; [reflexivity |].
  destruct ((alignment =? 0)
            || negb (Z.land alignment (size_sub alignment 1) =? 0));
    reflexivity.
Qed.
End VerifyArgs.

Lemma three_not_power_of_two : ~ power_of_two 3.
Proof. intros H. apply land_pred_power_of_two in H. discriminate H. Qed.

(** ** Rejection of invalid arguments *)

(** C8. With [bytes] zero or [alignment] not a power of two (zero included),
    [allocate] returns null and leaves the heap as it was, and [deallocate]
    releases nothing: the heap is as it was, and when [bytes] is zero nothing
    at all changes.  With a null pointer [deallocate] changes nothing,
    whatever the other arguments.  Both functions always return: no
    exception leaves them. *)
Theorem invalid_arguments_are_rejected
    (P : platform) (bytes alignment : Z) (w : world)
    (Ha : is_size_t alignment)
    (Hinv : bytes = 0 \/ alignment = 0 \/ ~ power_of_two alignment) :
  fst (allocate bytes alignment w) = nullptr /\
  heap_of (snd (allocate bytes alignment w)) = heap_of w /\
  (forall p : pointer, heap_of (deallocate p bytes alignment w) = heap_of w) /\
  (forall p : pointer, bytes = 0 -> deallocate p bytes alignment w = w) /\
  (forall (b a : Z), deallocate nullptr b a w = w).
Proof.
  assert (Hinv' : bytes = 0 \/ ~ power_of_two alignment).
  { destruct Hinv as [Hb | [Hz | Hp]]; [left; exact Hb | right | right; exact Hp].
    intros Hp. apply power_of_two_pos in Hp. lia. }
  pose proof (@verify_args_rejects P (log_of w) bytes alignment Ha Hinv') as Hrej.
  unfold allocate, deallocate.
  destruct (verify_args (log_of w) bytes alignment) as [verified log] eqn:Hv.
  simpl in Hrej. subst verified. simpl.
  split; [reflexivity | split; [reflexivity | split; [| split]]].
  - intros [| a]; reflexivity.
  - intros p Hb. destruct p as [| a]; [reflexivity |].
    unfold verify_args in Hv. subst bytes. simpl in Hv.
    injection Hv as <-. destruct w; reflexivity.
  - reflexivity.
Qed.

Lemma invalid_arguments_are_rejected_witness :
  let w := fresh_world in
  is_size_t (P := bump_posix) 3 /\
  ~ power_of_two 3 /\
  allocate 16 3 w
  = (nullptr,
     @Build_world bump_posix 1%positive
       [("invalid bytes = {}, alignment = {}"%string,
         [arg_size 16; arg_size 3])]) /\
  heap_of (deallocate (address 1) 16 3 w) = 1%positive /\
  deallocate (address 1) 0 8 w = w.
Proof.
  assert (Hs : is_size_t (P := bump_posix) 3) by (unfold is_size_t; simpl; lia).
  pose proof (@invalid_arguments_are_rejected bump_posix 16 3
                fresh_world Hs (or_intror (or_intror three_not_power_of_two)))
    as (_ & _ & Hfree & _).
  cbv zeta.
  split; [exact Hs | split; [exact three_not_power_of_two |]].
  split; [reflexivity | split; [apply Hfree | reflexivity]].
Defined.

(** ** Diagnostics of [allocate] *)

(** C9. [allocate(0, alignment)] returns null and emits no diagnostic, for
    every [alignment]: [verify_args] returns before its logging branch.
    [allocate] emits a diagnostic only when [bytes] is not zero and the
    alignment is invalid, or when a lower-level allocation routine fails; in
    the first case the diagnostic is the one of [verify_args]. *)
Theorem zero_bytes_is_rejected_silently (P : platform) (w : world) :
  (forall alignment : Z,
     verify_args (log_of w) 0 alignment = (false, log_of w) /\
     allocate 0 alignment w = (nullptr, w)) /\
  (forall bytes alignment : Z,
     is_size_t alignment ->
     log_of (snd (allocate bytes alignment w)) <> log_of w ->
     (bytes <> 0 /\ ~ power_of_two alignment)
     \/ lower_level_failure bytes alignment w) /\
  (forall bytes alignment : Z,
     is_size_t alignment -> bytes <> 0 -> ~ power_of_two alignment ->
     allocate bytes alignment w
     = (nullptr,
        {| heap_of := heap_of w;
           log_of := log_error (log_of w)
                       "invalid bytes = {}, alignment = {}"%string
                       [arg_size bytes; arg_size alignment] |})).
Proof.
  split; [| split].
  - intros alignment. split; [reflexivity |].
    unfold allocate. simpl. destruct w; reflexivity.
  - intros bytes alignment Ha Hlog.
    pose proof (@verify_args_accepts P (log_of w) bytes alignment Ha) as Hacc.
    pose proof (verify_args_log (log_of w) bytes alignment) as Hvl.
    unfold allocate, lower_level_failure in *.
    destruct (verify_args (log_of w) bytes alignment) as [verified log].
    simpl in Hacc, Hvl.
    destruct verified; simpl in Hlog.
    + rewrite orb_true_r in Hvl. subst log. right.
      destruct (Z.leb_spec alignment max_align) as [Hle | Hgt].
      { destruct (std_malloc bytes (heap_of w)); simpl in Hlog.
        contradiction. }
      split; [exact Hgt |].
      destruct built_as.
      * destruct (std_aligned_alloc alignment bytes (heap_of w))
          as [[p | what |] h]; simpl in *; [contradiction | exact I | exact I].
      * destruct (aligned_malloc bytes alignment (heap_of w)); simpl in Hlog.
        contradiction.
      * destruct (posix_memalign alignment bytes (heap_of w)) as [[ret p] h].
        simpl in *.
        destruct (Z.eqb_spec ret 0) as [Hz | Hnz]; simpl in Hlog;
          [contradiction | exact Hnz].
    + left. destruct (Z.eqb_spec bytes 0) as [Hb | Hb]; simpl in Hvl.
      { subst log. contradiction. }
      split; [exact Hb |]. intros Hp.
      assert (false = true) by (apply Hacc; split; assumption).
      discriminate.
  - intros bytes alignment Ha Hb Hp.
    pose proof (@verify_args_rejects P (log_of w) bytes alignment Ha (or_intror Hp)) as Hrej.
    pose proof (verify_args_log (log_of w) bytes alignment) as Hvl.
    unfold allocate.
    destruct (verify_args (log_of w) bytes alignment) as [verified log].
    simpl in Hrej, Hvl. subst verified. simpl.
    apply Z.eqb_neq in Hb. rewrite Hb in Hvl. simpl in Hvl. subst log.
    reflexivity.
Qed.

Lemma zero_bytes_is_rejected_silently_witness :
  let w := fresh_world in
  allocate 0 3 w = (nullptr, w) /\
  log_of (snd (allocate 16 3 w)) <> log_of w /\
  (16 <> 0 /\ ~ power_of_two 3) /\
  log_of (snd (allocate 64 8192 w)) <> log_of w /\
  lower_level_failure 64 8192 w.
Proof.
  cbv zeta.
  destruct (@zero_bytes_is_rejected_silently bump_posix fresh_world)
    as (Hzero & Honly & _).
  assert (Hlog3 : log_of (snd (allocate 16 3 fresh_world))
                  <> log_of fresh_world)
    by (simpl; discriminate).
  assert (Hlog8192 : log_of (snd (allocate 64 8192 fresh_world))
                     <> log_of fresh_world)
    by (simpl; discriminate).
  assert (Hs3 : is_size_t (P := bump_posix) 3)
    by (unfold is_size_t; simpl; lia).
  assert (Hs8192 : is_size_t (P := bump_posix) 8192)
    by (unfold is_size_t; simpl; lia).
  split; [apply Hzero | split; [exact Hlog3 | split]].
  - destruct (Honly 16 3 Hs3 Hlog3) as [Hinv | [Hgt _]];
      [exact Hinv | simpl in Hgt; lia].
  - split; [exact Hlog8192 |].
    destruct (Honly 64 8192 Hs8192 Hlog8192) as [[_ Hnp] | Hlow];
      [| exact Hlow].
    exfalso. apply Hnp. exists 13. split; [lia | reflexivity].
Defined.

(** * Further properties of [result] *)

Ltac unfold_result :=
  cbv zeta;
  unfold result.neqb, result.eqb, result.to_bool, result.ok, result.error,
    result.value, result.make; simpl;
  unfold generic_traits.storage_eqb, generic_traits.get_ok,
    generic_traits.get_error, generic_traits.get_value; simpl.

Section MoreErrorFacts.
Context {E : error_h} {HE : error_contract E}.

Lemma error_code_bool_limit :
  error_code_bool (error_code_of error_number_limit) = true.
Proof.
  rewrite <- to_error_code_t_limit at 1.
  rewrite error_code_bool_of, to_error_code_t_limit.
  apply negb_true_iff, Z.eqb_neq. apply error_number_limit_nonzero.
Qed.

Lemma error_code_eqb_refl (e : error_code) : error_code_eqb e e = true.
Proof. apply error_code_eqb_spec. reflexivity. Qed.

(** Codes of different truth value are told apart by [operator==]. *)
Lemma error_code_eqb_bool (a b : error_code) :
  error_code_bool a <> error_code_bool b -> error_code_eqb a b = false.
Proof.
  intros Hne. apply not_true_iff_false. intros Heq.
  apply error_code_eqb_spec in Heq. subst b. apply Hne. reflexivity.
Qed.
End MoreErrorFacts.

(** ** Construction without arguments *)

(** X1. For the three policies with a payload, the construction without
    arguments gives a result that is not ok, whose error is the
    uninitialized sentinel and whose value is [T] made from the literal [0]
    (zero, the null pointer). *)
Theorem default_construction_is_not_ok (E : error_h) (HE : error_contract E) :
  (forall (T : Type) (P : payload T),
     let r := result.make (generic_traits T) generic_traits.no_args in
     result.ok r = false /\ result.to_bool r = false /\
     result.error r = error_code_of error_number_limit /\
     result.value r = of_zero_literal) /\
  (let r := result.make integral_traits
              (integral_traits.inherited generic_traits.no_args) in
   result.ok r = false /\ result.to_bool r = false /\
   result.error r = error_code_of error_number_limit /\
   result.value r = 0) /\
  (let r := result.make pointer_traits
              (pointer_traits.inherited generic_traits.no_args) in
   result.ok r = false /\ result.to_bool r = false /\
   result.error r = error_code_of error_number_limit /\
   result.value r = nullptr).
Proof.
  unfold_result. rewrite error_code_bool_limit. simpl.
  repeat split.
Qed.

Lemma default_construction_is_not_ok_witness :
  error_contract error_u64 /\
  let r := result.make (E := error_u64) integral_traits
             (integral_traits.inherited generic_traits.no_args) in
  result.ok r = false /\ result.error r = 18446744073709551615 /\
  result.value r = 0.
Proof.
  split; [exact error_u64_contract |].
  destruct (@default_construction_is_not_ok error_u64 error_u64_contract)
    as (_ & (Hok & _ & Herr & Hval) & _).
  exact (conj Hok (conj Herr Hval)).
Defined.

(** ** The flag of the integral policy *)

(** X2. Integral policy: for every value [v] of an integral type no wider
    than [error_code_t], zero included, and every flag [ok], the result built
    from [(v, ok)] answers [ok] to [ok()] and to the conversion to [bool], and
    [v] to [value()]. *)
Theorem integral_flag_is_kept
    (E : error_h) (HE : error_contract E) (it : integral) (v : Z) (flag : bool)
    (Hv : in_range it v) (Hw : 0 < width it <= error_code_t_bits) :
  let r := result.make integral_traits (integral_traits.value_ok v flag) in
  result.ok r = flag /\ result.to_bool r = flag /\ result.value r = v.
Proof.
  unfold_result. rewrite error_code_bool_of.
  assert (Hok : negb (negb (to_error_code_t
                  (if flag then 0
                   else if v =? integral_traits.default_value
                        then error_number_limit else v) =? 0)) = flag).
  { destruct flag.
    - pose proof pow2_bits_gt_1.
      rewrite to_error_code_t_small by lia. reflexivity.
    - unfold integral_traits.default_value.
      apply negb_false_iff, negb_true_iff, Z.eqb_neq.
      destruct (Z.eqb_spec v 0) as [Hz | Hnz].
      + rewrite to_error_code_t_limit. apply error_number_limit_nonzero.
      + exact (@to_error_code_t_nonzero E it v Hv Hw Hnz). }
  rewrite Hok. repeat split.
Qed.

Lemma integral_flag_is_kept_witness :
  let uint8 := {| is_signed := false; width := 8 |} in
  in_range uint8 0 /\ in_range uint8 200 /\
  result.ok (result.make (E := error_u64) integral_traits
               (integral_traits.value_ok 0 false)) = false /\
  result.ok (result.make (E := error_u64) integral_traits
               (integral_traits.value_ok 200 true)) = true.
Proof.
  assert (H0 : in_range {| is_signed := false; width := 8 |} 0)
    by (unfold in_range; simpl; lia).
  assert (H200 : in_range {| is_signed := false; width := 8 |} 200)
    by (unfold in_range; simpl; lia).
  assert (Hw : 0 < width {| is_signed := false; width := 8 |}
               <= error_code_t_bits (error_h := error_u64))
    by (simpl; lia).
  destruct (@integral_flag_is_kept error_u64 error_u64_contract
              {| is_signed := false; width := 8 |} 0 false H0 Hw)
    as (Hfalse & _).
  destruct (@integral_flag_is_kept error_u64 error_u64_contract
              {| is_signed := false; width := 8 |} 200 true H200 Hw)
    as (Htrue & _).
  cbv zeta. exact (conj H0 (conj H200 (conj Hfalse Htrue))).
Defined.

(** X3. Integral policy: [(v, true)] builds the very result that [v] alone
    builds; [(0, false)] builds the very result that the construction
    without arguments builds, which [operator==] tells apart from the result
    built from [0] alone. *)
Theorem integral_flag_shapes_coincide (E : error_h) (HE : error_contract E) :
  (forall v : Z,
     result.make integral_traits (integral_traits.value_ok v true)
     = result.make integral_traits
         (integral_traits.inherited (generic_traits.value_only v))) /\
  result.make integral_traits (integral_traits.value_ok 0 false)
  = result.make integral_traits
      (integral_traits.inherited generic_traits.no_args) /\
  result.eqb
    (result.make integral_traits (integral_traits.value_ok 0 false))
    (result.make integral_traits
       (integral_traits.inherited generic_traits.no_args)) = true /\
  result.neqb
    (result.make integral_traits (integral_traits.value_ok 0 false))
    (result.make integral_traits
       (integral_traits.inherited (generic_traits.value_only 0))) = true.
Proof.
  split; [| split; [| split]].
  - intros v. unfold result.make; simpl. rewrite error_code_of_zero.
    reflexivity.
  - unfold result.make; simpl. rewrite to_error_code_t_limit. reflexivity.
  - unfold_result. rewrite to_error_code_t_limit, error_code_eqb_refl.
    reflexivity.
  - unfold_result. rewrite to_error_code_t_limit.
    rewrite error_code_eqb_bool; [reflexivity |].
    rewrite error_code_bool_limit, error_code_bool_default. discriminate.
Qed.

Lemma integral_flag_shapes_coincide_witness :
  error_contract error_u64 /\
  result.make (E := error_u64) integral_traits
    (integral_traits.value_ok 9 true)
  = result.make (E := error_u64) integral_traits
      (integral_traits.inherited (generic_traits.value_only 9)).
Proof.
  split; [exact error_u64_contract |].
  destruct (@integral_flag_shapes_coincide error_u64 error_u64_contract)
    as (Htrue & _).
  exact (Htrue 9).
Defined.

(** ** Null pointers *)

(** X4. Pointer policy: a pointer passed alone as a [T value] gives an ok
    result whether it is null or not; so the result built from a null value
    and the one built from the literal [nullptr] hold the same value and
    compare unequal.  The literal alone builds the very result that
    [(nullptr, code)] builds for the code made from [-1]. *)
Theorem pointer_null_value_is_not_null_literal
    (E : error_h) (HE : error_contract E) :
  (forall p : pointer,
     let r := result.make pointer_traits
                (pointer_traits.inherited (generic_traits.value_only p)) in
     result.ok r = true /\ result.value r = p) /\
  (let from_value := result.make pointer_traits
         (pointer_traits.inherited (generic_traits.value_only nullptr)) in
   let from_literal := result.make pointer_traits pointer_traits.null_only in
   result.value from_value = result.value from_literal /\
   result.ok from_value = true /\ result.ok from_literal = false /\
   result.eqb from_value from_literal = false /\
   result.neqb from_value from_literal = true) /\
  result.make pointer_traits pointer_traits.null_only
  = result.make pointer_traits
      (pointer_traits.null_ec (error_code_of (to_error_code_t (-1)))).
Proof.
  split; [| split; [| reflexivity]].
  - intros p. destruct (pointer_value_only_is_ok HE p) as (Hok & Hval & _).
    exact (conj Hok Hval).
  - unfold_result.
    rewrite error_code_bool_default, error_code_bool_minus_1.
    rewrite error_code_eqb_bool
      by (rewrite error_code_bool_default, error_code_bool_minus_1;
          discriminate).
    repeat split.
Qed.

Lemma pointer_null_value_is_not_null_literal_witness :
  error_contract error_u64 /\
  (let r := result.make (E := error_u64) pointer_traits
              (pointer_traits.inherited (generic_traits.value_only nullptr)) in
   result.ok r = true /\ result.value r = nullptr) /\
  result.ok (result.make (E := error_u64) pointer_traits
               pointer_traits.null_only) = false.
Proof.
  split; [exact error_u64_contract |].
  destruct (@pointer_null_value_is_not_null_literal error_u64
              error_u64_contract) as (Hvalue & (_ & _ & Hliteral & _) & _).
  exact (conj (Hvalue nullptr) Hliteral).
Defined.

(** ** Comparison as an equivalence *)

Lemma storage_eqb_equivalence (E : error_h) (HE : error_contract E)
    (T : Type) (P : payload T)
    (HP : forall a b : T, payload_eqb a b = true <-> a = b) :
  eqb_equivalence (@generic_traits.storage_eqb E T P).
Proof.
  assert (Hspec : forall lhs rhs : generic_traits.storage_t T,
            generic_traits.storage_eqb lhs rhs = true <-> lhs = rhs).
  { intros [v1 e1] [v2 e2].
    rewrite (@storage_eqb_spec E HE T P HP). simpl.
    split; [intros [-> ->]; reflexivity | intros H; injection H; auto]. }
  split; [| split].
  - intros a. apply Hspec. reflexivity.
  - intros a b.
    destruct (generic_traits.storage_eqb a b) eqn:Hab,
             (generic_traits.storage_eqb b a) eqn:Hba; try reflexivity.
    + apply Hspec in Hab. subst b. rewrite (proj2 (Hspec a a) eq_refl) in Hba.
      discriminate.
    + apply Hspec in Hba. subst b. rewrite (proj2 (Hspec a a) eq_refl) in Hab.
      discriminate.
  - intros a b c Hab Hbc. apply Hspec in Hab, Hbc. subst. apply Hspec.
    reflexivity.
Qed.

Lemma result_eqb_lift (E : error_h) (T : Type) (TT : type_traits T) :
  eqb_equivalence (@tt_storage_eqb E T TT) ->
  eqb_equivalence (@result.eqb E T TT).
Proof.
  intros (Hrefl & Hsym & Htrans). unfold result.eqb. split; [| split].
  - intros a. apply Hrefl.
  - intros a b. apply Hsym.
  - intros a b c. apply Htrans.
Qed.

(** X5. [operator==] is an equivalence on the results of each policy
    (for the generic policy, as soon as [operator==] of [T] decides equality
    of [T]), and results that compare equal answer alike to [ok()],
    [value()] and [error()]. *)
Theorem result_eqb_is_equivalence (E : error_h) (HE : error_contract E) :
  (forall (T : Type) (P : payload T),
     (forall a b : T, payload_eqb a b = true <-> a = b) ->
     eqb_equivalence (@result.eqb E T (generic_traits T))) /\
  eqb_equivalence (@result.eqb E Z integral_traits) /\
  eqb_equivalence (@result.eqb E pointer pointer_traits) /\
  eqb_equivalence (@result_void.eqb E void_traits) /\
  (forall lhs rhs : result.t integral_traits,
     result.eqb lhs rhs = true ->
     result.ok lhs = result.ok rhs /\ result.value lhs = result.value rhs /\
     result.error lhs = result.error rhs) /\
  (forall lhs rhs : result.t pointer_traits,
     result.eqb lhs rhs = true ->
     result.ok lhs = result.ok rhs /\ result.value lhs = result.value rhs /\
     result.error lhs = result.error rhs) /\
  (forall lhs rhs : result_void.t void_traits,
     result_void.eqb lhs rhs = true ->
     result_void.ok lhs = result_void.ok rhs /\
     result_void.error lhs = result_void.error rhs).
Proof.
  split; [| split; [| split; [| split; [| split; [| split]]]]].
  - intros T P HP. apply result_eqb_lift. simpl.
    apply storage_eqb_equivalence; assumption.
  - apply result_eqb_lift. simpl.
    apply (@storage_eqb_equivalence E HE Z integral_payload Z.eqb_eq).
  - apply result_eqb_lift. simpl.
    apply (@storage_eqb_equivalence E HE pointer pointer_payload
             pointer_eqb_spec).
  - unfold result_void.eqb; simpl. unfold void_traits.storage_eqb.
    split; [| split].
    + intros a. apply error_code_eqb_refl.
    + intros a b.
      destruct (error_code_eqb (result_void.code_ a) (result_void.code_ b))
        eqn:Hab.
      * apply error_code_eqb_spec in Hab. rewrite Hab.
        symmetry. apply error_code_eqb_refl.
      * symmetry. apply not_true_iff_false. intros Hba.
        apply error_code_eqb_spec in Hba. rewrite Hba in Hab.
        rewrite error_code_eqb_refl in Hab. discriminate.
    + intros a b c Hab Hbc. apply error_code_eqb_spec in Hab, Hbc.
      rewrite Hab, <- Hbc. apply error_code_eqb_refl.
  - intros [[v1 e1]] [[v2 e2]] Heq. unfold result.eqb in Heq. simpl in Heq.
    apply (@storage_eqb_spec E HE Z integral_payload Z.eqb_eq) in Heq.
    simpl in Heq. destruct Heq as [-> ->]. repeat split.
  - intros [[v1 e1]] [[v2 e2]] Heq. unfold result.eqb in Heq. simpl in Heq.
    apply (@storage_eqb_spec E HE pointer pointer_payload pointer_eqb_spec)
      in Heq.
    simpl in Heq. destruct Heq as [-> ->]. repeat split.
  - intros [lhs] [rhs] Heq. apply error_code_eqb_spec in Heq.
    unfold result_void.ok, result_void.error; simpl in *.
    rewrite Heq. split; reflexivity.
Qed.

Lemma result_eqb_is_equivalence_witness :
  error_contract error_u64 /\
  eqb_equivalence (@result.eqb error_u64 Z integral_traits) /\
  (forall a b : string, payload_eqb a b = true <-> a = b) /\
  eqb_equivalence (@result.eqb error_u64 string (generic_traits string)).
Proof.
  destruct (@result_eqb_is_equivalence error_u64 error_u64_contract)
    as (Hgeneric & Hintegral & _).
  split; [exact error_u64_contract |].
  split; [exact Hintegral |].
  split; [intros a b; apply String.eqb_eq |].
  apply Hgeneric. intros a b. apply String.eqb_eq.
Defined.

(** ** Results and their accessors *)

(** X6. A result holds nothing but what [value()] and [error()] return:
    every result of a policy with a payload is the one built from
    [(value(), error())], every [result<void>] the one built from [error()];
    and a result built from [(value, code)] returns that value and that code,
    so two of them are the same result only for the same value and code. *)
Theorem result_is_rebuilt_from_accessors (E : error_h) :
  (forall (T : Type) (P : payload T) (r : result.t (generic_traits T)),
     r = result.make (generic_traits T)
           (generic_traits.value_ec (result.value r) (result.error r))) /\
  (forall r : result.t integral_traits,
     r = result.make integral_traits
           (integral_traits.inherited
              (generic_traits.value_ec (result.value r) (result.error r)))) /\
  (forall r : result.t pointer_traits,
     r = result.make pointer_traits
           (pointer_traits.inherited
              (generic_traits.value_ec (result.value r) (result.error r)))) /\
  (forall r : result_void.t void_traits,
     r = result_void.make void_traits
           (void_traits.ec_only (result_void.error r))) /\
  (forall (T : Type) (P : payload T) (v1 v2 : T) (e1 e2 : error_code),
     let r1 := result.make (generic_traits T) (generic_traits.value_ec v1 e1) in
     let r2 := result.make (generic_traits T) (generic_traits.value_ec v2 e2) in
     result.value r1 = v1 /\ result.error r1 = e1 /\
     result.ok r1 = negb (error_code_bool e1) /\
     (r1 = r2 -> v1 = v2 /\ e1 = e2)).
Proof.
  split; [| split; [| split; [| split]]].
  - intros T P [[v e]]. reflexivity.
  - intros [[v e]]. reflexivity.
  - intros [[v e]]. reflexivity.
  - intros [e]. reflexivity.
  - intros T P v1 v2 e1 e2. unfold_result.
    split; [reflexivity | split; [reflexivity | split; [reflexivity |]]].
    intros Hsame. injection Hsame as Hv He. exact (conj Hv He).
Qed.

Lemma result_is_rebuilt_from_accessors_witness :
  let r1 := result.make (E := error_u64) (generic_traits string)
              (generic_traits.value_ec (E := error_u64) "a"%string 3) in
  let r2 := result.make (E := error_u64) (generic_traits string)
              (generic_traits.value_ec (E := error_u64) "a"%string 3) in
  r1 = r2 /\ result.value r1 = "a"%string /\ result.error r1 = 3.
Proof.
  destruct (@result_is_rebuilt_from_accessors error_u64)
    as (_ & _ & _ & _ & Hpair).
  destruct (Hpair string string_payload "a"%string "a"%string 3 3)
    as (Hval & Herr & _ & _).
  cbv zeta. split; [reflexivity | exact (conj Hval Herr)].
Defined.

(** * Further properties of [new_delete_resource] *)

Section MoreVerifyArgs.
Context {P : platform}.

Lemma log_error_grows (log : gripper) (fmt : string) (args : list log_arg) :
  log_error log fmt args <> log.
Proof.
  unfold log_error. intros H.
  apply (f_equal (@List.length _)) in H.
  rewrite List.length_app in H. simpl in H. lia.
Qed.

(** Accepted arguments leave the log alone. *)
Lemma verify_args_valid (log : gripper) (bytes alignment : Z) :
  is_size_t alignment -> bytes <> 0 -> power_of_two alignment ->
  verify_args log bytes alignment = (true, log).
Proof.
  intros Ha Hb Hp.
  pose proof (proj2 (verify_args_accepts log bytes Ha) (conj Hb Hp)) as Hacc.
  pose proof (verify_args_log log bytes alignment) as Hlog.
  destruct (verify_args log bytes alignment) as [verified log'].
  simpl in Hacc, Hlog. subst verified.
  rewrite orb_true_r in Hlog. subst log'. reflexivity.
Qed.
End MoreVerifyArgs.

(** ** [verify_args] *)

(** X7. [verify_args] returns true exactly for a non-zero [bytes] with an
    [alignment] that is a power of two, whatever the log; it leaves the log
    as it was exactly when [bytes] is zero or the alignment is a power of
    two, and otherwise appends the one diagnostic that names both
    arguments. *)
Theorem verify_args_decides
    (P : platform) (log : gripper) (bytes alignment : Z)
    (Ha : is_size_t alignment) :
  (fst (verify_args log bytes alignment) = true
   <-> bytes <> 0 /\ power_of_two alignment) /\
  (snd (verify_args log bytes alignment) = log
   <-> bytes = 0 \/ power_of_two alignment) /\
  (bytes <> 0 -> ~ power_of_two alignment ->
   verify_args log bytes alignment
   = (false,
      log ++ [("invalid bytes = {}, alignment = {}"%string,
               [arg_size bytes; arg_size alignment])])).
Proof.
  pose proof (@verify_args_accepts P log bytes alignment Ha) as Hacc.
  pose proof (@verify_args_log P log bytes alignment) as Hlog.
  destruct (verify_args log bytes alignment) as [verified log'] eqn:Hv.
  simpl in *.
  split; [exact Hacc | split].
  - destruct (Z.eqb_spec bytes 0) as [Hb | Hb]; simpl in Hlog.
    { subst log'. split; [intros _; left; exact Hb | reflexivity]. }
    destruct verified.
    + subst log'. split; [| reflexivity].
      intros _. right. apply Hacc. reflexivity.
    + subst log'. split.
      * intros Hgrow. apply log_error_grows in Hgrow. contradiction.
      * intros [Hz | Hp]; [contradiction |].
        assert (false = true) by (apply Hacc; split; assumption).
        discriminate.
  - intros Hb Hp. destruct verified.
    + exfalso. apply Hp. apply Hacc. reflexivity.
    + apply Z.eqb_neq in Hb. rewrite Hb in Hlog. simpl in Hlog.
      subst log'. reflexivity.
Qed.

Lemma verify_args_decides_witness :
  is_size_t (P := bump_posix) 64 /\
  fst (verify_args (P := bump_posix) [] 24 64) = true /\
  power_of_two 64 /\
  snd (verify_args (P := bump_posix) [] 24 64) = [].
Proof.
  assert (Ha : is_size_t (P := bump_posix) 64)
    by (unfold is_size_t; simpl; lia).
  destruct (@verify_args_decides bump_posix [] 24 64 Ha) as (Hacc & _ & _).
  split; [exact Ha |].
  split; [reflexivity |].
  split; [apply (proj1 Hacc); reflexivity | reflexivity].
Defined.

(** ** [allocate] with valid arguments *)

(** X8. For a non-zero [bytes] and a power-of-two [alignment], [allocate]
    makes one call into the C library and passes its answer on.  Up to
    [alignof(std::max_align_t)] the call is [std::malloc(bytes)] in every
    build, and its answer, null included, is returned with no diagnostic.
    Above it the call is the over-aligned routine of the build; a thrown
    exception ([cpp_17]) or a non-zero return ([posix]) becomes a null return
    with one diagnostic, and the pointer [posix_memalign] wrote is dropped. *)
Theorem allocate_passes_the_answer_on
    (P : platform) (bytes alignment : Z) (w : world)
    (Ha : is_size_t alignment) (Hb : bytes <> 0)
    (Hp : power_of_two alignment) :
  (alignment <= max_align ->
   allocate bytes alignment w
   = (fst (std_malloc bytes (heap_of w)),
      {| heap_of := snd (std_malloc bytes (heap_of w));
         log_of := log_of w |})) /\
  (max_align < alignment -> built_as = os_win ->
   allocate bytes alignment w
   = (fst (aligned_malloc bytes alignment (heap_of w)),
      {| heap_of := snd (aligned_malloc bytes alignment (heap_of w));
         log_of := log_of w |})) /\
  (max_align < alignment -> built_as = cpp_17 ->
   heap_of (snd (allocate bytes alignment w))
   = snd (std_aligned_alloc alignment bytes (heap_of w)) /\
   match fst (std_aligned_alloc alignment bytes (heap_of w)) with
   | returns p =>
       fst (allocate bytes alignment w) = p /\
       log_of (snd (allocate bytes alignment w)) = log_of w
   | _ =>
       fst (allocate bytes alignment w) = nullptr /\
       exists diagnostic,
         log_of (snd (allocate bytes alignment w))
         = log_of w ++ [diagnostic]
   end) /\
  (max_align < alignment -> built_as = posix ->
   heap_of (snd (allocate bytes alignment w))
   = snd (posix_memalign alignment bytes (heap_of w)) /\
   let ret := fst (fst (posix_memalign alignment bytes (heap_of w))) in
   if ret =? 0
   then fst (allocate bytes alignment w)
        = snd (fst (posix_memalign alignment bytes (heap_of w))) /\
        log_of (snd (allocate bytes alignment w)) = log_of w
   else fst (allocate bytes alignment w) = nullptr /\
        log_of (snd (allocate bytes alignment w))
        = log_of w
          ++ [("posix_memalign(alignment = {}, bytes = {}) fails. error = {}"%string,
               [arg_size alignment; arg_size bytes; arg_sys_error ret])]).
Proof.
  pose proof (@verify_args_valid P (log_of w) bytes alignment Ha Hb Hp) as Hv.
  unfold allocate. rewrite Hv. simpl.
  split; [| split; [| split]].
  - intros Hle. apply Z.leb_le in Hle. rewrite Hle.
    destruct (std_malloc bytes (heap_of w)); reflexivity.
  - intros Hgt Hbuild. apply Z.leb_gt in Hgt. rewrite Hgt, Hbuild.
    destruct (aligned_malloc bytes alignment (heap_of w)); reflexivity.
  - intros Hgt Hbuild. apply Z.leb_gt in Hgt. rewrite Hgt, Hbuild.
    destruct (std_aligned_alloc alignment bytes (heap_of w))
      as [[p | what |] h]; simpl.
    + repeat split.
    + split; [reflexivity | split; [reflexivity |]]. eexists. reflexivity.
    + split; [reflexivity | split; [reflexivity |]]. eexists. reflexivity.
  - intros Hgt Hbuild. apply Z.leb_gt in Hgt. rewrite Hgt, Hbuild.
    destruct (posix_memalign alignment bytes (heap_of w)) as [[ret p] h].
    simpl. destruct (ret =? 0); simpl; repeat split.
Qed.

Lemma allocate_passes_the_answer_on_witness :
  is_size_t (P := bump_posix) 8 /\ power_of_two 8 /\
  allocate 24 8 fresh_world
  = (address 1, @Build_world bump_posix 25%positive []) /\
  is_size_t (P := bump_posix) 8192 /\ power_of_two 8192 /\
  fst (allocate 24 8192 fresh_world) = nullptr.
Proof.
  assert (Ha8 : is_size_t (P := bump_posix) 8)
    by (unfold is_size_t; simpl; lia).
  assert (Hp8 : power_of_two 8) by (exists 3; split; [lia | reflexivity]).
  assert (Ha8192 : is_size_t (P := bump_posix) 8192)
    by (unfold is_size_t; simpl; lia).
  assert (Hp8192 : power_of_two 8192)
    by (exists 13; split; [lia | reflexivity]).
  assert (Hb : 24 <> 0) by lia.
  destruct (@allocate_passes_the_answer_on bump_posix 24 8 fresh_world
              Ha8 Hb Hp8) as (Hsmall & _).
  destruct (@allocate_passes_the_answer_on bump_posix 24 8192 fresh_world
              Ha8192 Hb Hp8192) as (_ & _ & _ & Hposix).
  split; [exact Ha8 | split; [exact Hp8 | split]].
  - apply Hsmall. simpl. lia.
  - split; [exact Ha8192 | split; [exact Hp8192 |]].
    assert (Hgt : max_align (platform := bump_posix) < 8192) by (simpl; lia).
    destruct (Hposix Hgt eq_refl) as (_ & Hret).
    simpl in Hret. apply Hret.
Defined.

(** ** What a diagnostic means *)

Ltac split_all := repeat match goal with |- _ /\ _ => split end.

Ltac none_added :=
  exists []; rewrite app_nil_r; split_all;
  [reflexivity | simpl; lia | intros Hne; exfalso; apply Hne; reflexivity ..].

Ltac one_added :=
  eexists; unfold log_error; split_all;
  [reflexivity | simpl; lia | intros _; reflexivity ..].

(** X9. Whatever the arguments and the platform, a call of [allocate] or
    [deallocate] keeps the diagnostics emitted before it and appends at most
    one; and when [allocate] appends one, it returns null. *)
Theorem diagnostics_are_appended
    (P : platform) (p : pointer) (bytes alignment : Z) (w : world) :
  (exists added : gripper,
     log_of (snd (allocate bytes alignment w)) = log_of w ++ added /\
     (List.length added <= 1)%nat /\
     (added <> [] -> fst (allocate bytes alignment w) = nullptr)) /\
  (exists added : gripper,
     log_of (deallocate p bytes alignment w) = log_of w ++ added /\
     (List.length added <= 1)%nat).
Proof.
  assert (Hverify : exists added : gripper,
            snd (verify_args (log_of w) bytes alignment) = log_of w ++ added /\
            (List.length added <= 1)%nat /\
            (added <> [] ->
             fst (verify_args (log_of w) bytes alignment) = false)).
  { unfold verify_args.
    destruct (bytes =? 0); simpl; [none_added |].
    destruct ((alignment =? 0)
              || negb (Z.land alignment (size_sub alignment 1) =? 0)); simpl;
      [one_added | none_added]. }
  destruct Hverify as (added & Hlog & Hlen & Hrej).
  assert (Hfree : forall h log,
            exists more : gripper,
              log_of (deallocate_std_free bytes alignment p h log)
              = log ++ more /\ (List.length more <= 1)%nat).
  { intros h log. unfold deallocate_std_free.
    destruct (std_free p h) as [[u | what |] h']; simpl;
      [none_added | one_added | one_added]. }
  split.
  - unfold allocate.
    destruct (verify_args (log_of w) bytes alignment) as [verified log].
    simpl in Hlog, Hrej. subst log.
    destruct verified; simpl.
    + assert (Hnil : added = []).
      { destruct added as [| d rest]; [reflexivity |].
        assert (true = false) by (apply Hrej; discriminate). discriminate. }
      subst added. rewrite app_nil_r.
      destruct (alignment <=? max_align).
      { destruct (std_malloc bytes (heap_of w)); simpl. none_added. }
      destruct built_as.
      * destruct (std_aligned_alloc alignment bytes (heap_of w))
          as [[q | what |] h]; simpl; [none_added | one_added | one_added].
      * destruct (aligned_malloc bytes alignment (heap_of w)); simpl.
        none_added.
      * destruct (posix_memalign alignment bytes (heap_of w)) as [[ret q] h].
        destruct (ret =? 0); simpl; [none_added | one_added].
    + exists added.
      split; [reflexivity | split; [exact Hlen | intros _; reflexivity]].
  - unfold deallocate. destruct p as [| a]; [none_added |].
    destruct (verify_args (log_of w) bytes alignment) as [verified log].
    simpl in Hlog, Hrej. subst log.
    destruct verified; simpl.
    + assert (Hnil : added = []).
      { destruct added as [| d rest]; [reflexivity |].
        assert (true = false) by (apply Hrej; discriminate). discriminate. }
      subst added. rewrite app_nil_r.
      destruct built_as; [apply Hfree | |];
        (destruct (alignment <=? max_align); [apply Hfree |]);
        simpl; none_added.
    + exists added. split; [reflexivity | exact Hlen].
Qed.

Lemma diagnostics_are_appended_witness :
  log_of (snd (allocate 24 8192 fresh_world)) <> [] /\
  fst (allocate 24 8192 fresh_world) = nullptr.
Proof.
  destruct (@diagnostics_are_appended bump_posix nullptr 24 8192 fresh_world)
    as ((added & Hlog & _ & Hnull) & _).
  assert (Hne : log_of (snd (allocate 24 8192 fresh_world)) <> [])
    by (simpl; discriminate).
  split; [exact Hne |].
  apply Hnull. intros Hnil. apply Hne. rewrite Hlog, Hnil. reflexivity.
Defined.

(** ** [deallocate] with valid arguments *)

(** X10. For a non-null pointer, a non-zero [bytes] and a power-of-two
    [alignment], [deallocate] makes one call into the C library:
    [std::free] in the [cpp_17] build and, in the other builds, up to
    [alignof(std::max_align_t)]; above it [::_aligned_free] ([os_win]) or
    [::free] ([posix]), which emit no diagnostic.  A diagnostic is emitted
    only when [std::free] throws. *)
Theorem deallocate_releases_once
    (P : platform) (a : positive) (bytes alignment : Z) (w : world)
    (Ha : is_size_t alignment) (Hb : bytes <> 0)
    (Hp : power_of_two alignment) :
  (built_as = cpp_17 \/ alignment <= max_align ->
   heap_of (deallocate (address a) bytes alignment w)
   = snd (std_free (address a) (heap_of w)) /\
   (log_of (deallocate (address a) bytes alignment w) <> log_of w ->
    forall u, fst (std_free (address a) (heap_of w)) <> returns u)) /\
  (max_align < alignment -> built_as = os_win ->
   deallocate (address a) bytes alignment w
   = {| heap_of := aligned_free (address a) (heap_of w);
        log_of := log_of w |}) /\
  (max_align < alignment -> built_as = posix ->
   deallocate (address a) bytes alignment w
   = {| heap_of := c_free (address a) (heap_of w); log_of := log_of w |}).
Proof.
  pose proof (@verify_args_valid P (log_of w) bytes alignment Ha Hb Hp) as Hv.
  unfold deallocate. rewrite Hv. simpl.
  assert (Hfree :
    heap_of (deallocate_std_free bytes alignment (address a)
               (heap_of w) (log_of w))
    = snd (std_free (address a) (heap_of w)) /\
    (log_of (deallocate_std_free bytes alignment (address a)
               (heap_of w) (log_of w)) <> log_of w ->
     forall u, fst (std_free (address a) (heap_of w)) <> returns u)).
  { unfold deallocate_std_free.
    destruct (std_free (address a) (heap_of w)) as [[u | what |] h]; simpl;
      (split; [reflexivity |]).
    - intros Hne. exfalso. apply Hne. reflexivity.
    - intros _ u. discriminate.
    - intros _ u. discriminate. }
  split; [| split].
  - intros [Hbuild | Hle].
    + rewrite Hbuild. exact Hfree.
    + apply Z.leb_le in Hle. rewrite Hle. destruct built_as; exact Hfree.
  - intros Hgt Hbuild. apply Z.leb_gt in Hgt. rewrite Hgt, Hbuild.
    reflexivity.
  - intros Hgt Hbuild. apply Z.leb_gt in Hgt. rewrite Hgt, Hbuild.
    reflexivity.
Qed.

Lemma deallocate_releases_once_witness :
  is_size_t (P := bump_posix) 32 /\ power_of_two 32 /\
  deallocate (P := bump_posix) (address 1) 24 32 fresh_world = fresh_world.
Proof.
  assert (Ha : is_size_t (P := bump_posix) 32)
    by (unfold is_size_t; simpl; lia).
  assert (Hp : power_of_two 32) by (exists 5; split; [lia | reflexivity]).
  assert (Hb : 24 <> 0) by lia.
  destruct (@deallocate_releases_once bump_posix 1%positive 24 32 fresh_world
              Ha Hb Hp) as (_ & _ & Hposix).
  split; [exact Ha | split; [exact Hp |]].
  assert (Hgt : max_align (platform := bump_posix) < 32) by (simpl; lia).
  rewrite (Hposix Hgt eq_refl). reflexivity.
Defined.

(** ** Allocation followed by release *)

(** X11. On a platform whose routines succeed, for valid arguments, in each
    of the three builds and for every [alignof(std::max_align_t)]:
    [allocate] followed by [deallocate] of the returned pointer with the same
    [bytes] and [alignment] makes exactly two calls into the C library, an
    allocation and the release routine that goes with it, applied to the
    pointer that was returned; no diagnostic is emitted. *)
Theorem release_matches_allocation
    (bits alignof_max : Z) (b : build) (a : positive)
    (bytes alignment : Z) (calls : list call) (log : gripper)
    (Ha : is_size_t (P := recording bits alignof_max b (address a)) alignment)
    (Hb : bytes <> 0) (Hp : power_of_two alignment) :
  let w := @Build_world (recording bits alignof_max b (address a)) calls log in
  let p := fst (allocate bytes alignment w) in
  let w' := deallocate p bytes alignment (snd (allocate bytes alignment w)) in
  p = address a /\
  log_of w' = log /\
  exists allocation release : call,
    heap_of w' = calls ++ [allocation; release] /\
    releases allocation release = true /\
    released release = Some p.
Proof.
  cbv zeta.
  pose proof (@verify_args_valid (recording bits alignof_max b (address a))
                log bytes alignment Ha Hb Hp) as Hv.
  unfold allocate, deallocate; simpl. rewrite Hv; simpl.
  destruct (alignment <=? alignof_max) eqn:Hle; simpl.
  - rewrite Hv; simpl.
    split; [reflexivity |].
    destruct b; unfold deallocate_std_free; simpl; (split; [reflexivity |]);
      exists (call_malloc bytes), (call_std_free (address a));
      rewrite <- app_assoc; repeat split.
  - destruct b; simpl; rewrite Hv; simpl;
      unfold deallocate_std_free; simpl;
      (split; [reflexivity |]); (split; [reflexivity |]).
    + exists (call_aligned_alloc alignment bytes), (call_std_free (address a)).
      rewrite <- app_assoc. repeat split.
    + exists (call_aligned_malloc bytes alignment),
        (call_aligned_free (address a)).
      rewrite <- app_assoc. repeat split.
    + exists (call_posix_memalign alignment bytes), (call_c_free (address a)).
      rewrite <- app_assoc. repeat split.
Qed.

Lemma release_matches_allocation_witness :
  let P := recording 64 16 os_win (address 7) in
  let w := @Build_world P [] [] in
  is_size_t (P := P) 64 /\ power_of_two 64 /\
  heap_of (deallocate (fst (allocate 100 64 w)) 100 64
             (snd (allocate 100 64 w)))
  = [call_aligned_malloc 100 64; call_aligned_free (address 7)].
Proof.
  assert (Ha : is_size_t (P := recording 64 16 os_win (address 7)) 64)
    by (unfold is_size_t; simpl; lia).
  assert (Hp : power_of_two 64) by (exists 6; split; [lia | reflexivity]).
  assert (Hb : 100 <> 0) by lia.
  pose proof (@release_matches_allocation 64 16 os_win 7%positive 100 64
                [] [] Ha Hb Hp) as (_ & _ & allocation & release & Hcalls & _).
  cbv zeta. split; [exact Ha | split; [exact Hp | reflexivity]].
Defined.
